(** * Gravity compensation node: the process entry point and the torque core

    Source: interbotix_gravity_compensation/src/interbotix_gravity_compensation_node.cpp
    ([main]).  The class [InterbotixGravityCompensation] that [main]
    constructs lives in another translation unit; its constructor is an
    external call here, seen through the object it returns, the [bool &]
    it may assign, and the way it ends. *)

From Stdlib Require Import String List ZArith Bool Lia Reals Lra.
Import ListNotations.

(** ** The process entry point *)

Module Node.

Local Open Scope Z_scope.

(** Severity of an rclcpp log macro. *)
Inductive Severity := Debug | Info | Warn | Error | Fatal.

(** The node object handed back by [std::make_shared]. *)
Record NodeHandle := { node_name : string }.

(** The calls written in [main]'s body, in program order, each recorded
    when it is entered and with the object it is given.  Destructors that
    run implicitly at scope exit are not recorded. *)
Inductive Event :=
| EvInit                                   (* rclcpp::init(argc, argv) *)
| EvConstruct (flag_in flag_out : bool)    (* make_shared<...>(success) *)
| EvAddNode (n : NodeHandle)               (* executor.add_node(node) *)
| EvSpin                                   (* executor.spin() *)
| EvLog (logger : NodeHandle) (sev : Severity) (msg : string)
                                           (* RCLCPP_<sev>(node->get_logger(), msg) *)
| EvShutdown.                              (* rclcpp::shutdown() *)

(** The functions [main] calls. *)
Inductive Call := CInit | CConstruct | CAddNode | CSpin | CLog | CShutdown.

Definition call_of (e : Event) : Call :=
  match e with
  | EvInit => CInit
  | EvConstruct _ _ => CConstruct
  | EvAddNode _ => CAddNode
  | EvSpin => CSpin
  | EvLog _ _ _ => CLog
  | EvShutdown => CShutdown
  end.

(** How a call ends: it returns, it throws, or it never comes back.
    [main] has no handler, so an exception ends the process. *)
Inductive Response := Normal | Throws | Hangs.

(** The constructor, as far as [main] can observe it: the object it
    builds and the assignments it performs, in order, through the
    [bool & success] parameter.  An empty list is a constructor that never
    touches the flag. *)
Record Constructor := {
  ctor_node : NodeHandle;
  ctor_writes : list bool
}.

(** Everything outside [main] in one run: what the constructor does, and
    how each of the called functions ends. *)
Record Behaviour := {
  b_ctor : Constructor;
  b_response : Call -> Response
}.

(** The environment of a nominal run, in which every call returns except
    that [executor.spin()] may never come back (it blocks until the
    context is shut down from outside). *)
Record Env := {
  env_ctor : Constructor;
  env_spin_returns : bool
}.

Definition nominal (env : Env) : Behaviour :=
  {| b_ctor := env_ctor env;
     b_response := fun c =>
       match c with
       | CSpin => if env_spin_returns env then Normal else Hangs
       | _ => Normal
       end |}.

(** [main]'s frame and the trace so far.  [success] is the local that the
    constructor aliases. *)
Record World := {
  success : bool;
  trace : list Event
}.

(** A computation returns a value, never comes back, or is cut short by
    an exception nobody catches. *)
Inductive Outcome (A : Type) :=
| Returned (a : A)
| Blocked
| Aborted.
Arguments Returned {A} a.
Arguments Blocked {A}.
Arguments Aborted {A}.

Definition M (A : Type) : Type := World -> Outcome A * World.

Definition ret {A} (a : A) : M A := fun w => (Returned a, w).

Definition bind {A B} (m : M A) (k : A -> M B) : M B :=
  fun w =>
    match m w with
    | (Returned a, w') => k a w'
    | (Blocked, w') => (Blocked, w')
    | (Aborted, w') => (Aborted, w')
    end.

Declare Scope proc_scope.
Delimit Scope proc_scope with proc.
Notation "x <- m ;; k" := (bind m (fun x => k))
  (at level 61, m at next level, right associativity) : proc_scope.
Notation "m ;; k" := (bind m (fun _ => k))
  (at level 61, right associativity) : proc_scope.
Local Open Scope proc_scope.

Definition emit (e : Event) : M unit :=
  fun w => (Returned tt, {| success := success w; trace := trace w ++ [e] |}).

Definition set_success (b : bool) : M unit :=
  fun w => (Returned tt, {| success := b; trace := trace w |}).

Definition get_success : M bool :=
  fun w => (Returned (success w), w).

Definition block {A} : M A := fun w => (Blocked, w).

Definition throw {A} : M A := fun w => (Aborted, w).

(** The end of an external call that would hand back [a]. *)
Definition finish {A} (r : Response) (a : A) : M A :=
  match r with
  | Normal => ret a
  | Throws => throw
  | Hangs => block
  end.

(** What is left of a call that does not return. *)
Definition cut_short {A} (r : Response) : Outcome A :=
  match r with
  | Throws => Aborted
  | _ => Blocked
  end.

(** Assignments through the reference land in [main]'s local. *)
Fixpoint assign_all (ws : list bool) : M unit :=
  match ws with
  | [] => ret tt
  | b :: rest => set_success b ;; assign_all rest
  end.

Definition rclcpp_init (b : Behaviour) : M unit :=
  emit EvInit ;;
  finish (b_response b CInit) tt.

Definition make_shared (b : Behaviour) : M NodeHandle :=
  before <- get_success ;;
  assign_all (ctor_writes (b_ctor b)) ;;
  after <- get_success ;;
  emit (EvConstruct before after) ;;
  finish (b_response b CConstruct) (ctor_node (b_ctor b)).

Definition add_node (b : Behaviour) (n : NodeHandle) : M unit :=
  emit (EvAddNode n) ;;
  finish (b_response b CAddNode) tt.

Definition spin (b : Behaviour) : M unit :=
  emit EvSpin ;;
  finish (b_response b CSpin) tt.

Definition RCLCPP_FATAL (b : Behaviour) (n : NodeHandle) (msg : string) : M unit :=
  emit (EvLog n Fatal msg) ;;
  finish (b_response b CLog) tt.

Definition rclcpp_shutdown (b : Behaviour) : M unit :=
  emit EvShutdown ;;
  finish (b_response b CShutdown) tt.

Definition fatal_message : string :=
  "Failed to initialize the gravity compensation node. Exiting...".

(** [main], statement by statement.  The [else] branch leaves early with
    [Some 1]; the [then] branch falls through to the common tail. *)
Definition main (b : Behaviour) : M Z :=
  rclcpp_init b ;;
  set_success true ;;
  node <- make_shared b ;;
  ok <- get_success ;;
  early <- (if ok then
              add_node b node ;;
              spin b ;;
              ret None
            else
              RCLCPP_FATAL b node fatal_message ;;
              rclcpp_shutdown b ;;
              ret (Some 1)) ;;
  match early with
  | Some status => ret status
  | None => rclcpp_shutdown b ;; ret 0
  end.

(** The process starts with an empty trace.  [success] does not exist
    before its declaration; whatever the slot holds then ([slot]) is
    overwritten by the initialiser. *)
Definition start (slot : bool) : World := {| success := slot; trace := [] |}.

(** A nominal run. *)
Definition run (env : Env) (slot : bool) : Outcome Z * World :=
  main (nominal env) (start slot).

Definition exit_status (env : Env) (slot : bool) : Outcome Z :=
  fst (run env slot).

Definition events (env : Env) (slot : bool) : list Event :=
  trace (snd (run env slot)).

(** The flag as [main] reads it after construction: the constructor's last
    assignment, or the initial [true] when there is none. *)
Definition flag_after (c : Constructor) : bool := last (ctor_writes c) true.

(** Recognisers for the calls, and how often a kind of call occurs in a
    trace. *)
Definition is_init (e : Event) : bool :=
  match e with
  | EvInit => true
  | _ => false
  end.

Definition is_construct (e : Event) : bool :=
  match e with
  | EvConstruct _ _ => true
  | _ => false
  end.

Definition is_add_node (e : Event) : bool :=
  match e with
  | EvAddNode _ => true
  | _ => false
  end.

Definition is_log (e : Event) : bool :=
  match e with
  | EvLog _ _ _ => true
  | _ => false
  end.


Definition occurrences (p : Event -> bool) (t : list Event) : nat :=
  List.length (filter p t).

Definition is_fatal (e : Event) : bool :=
  match e with
  | EvLog _ Fatal _ => true
  | _ => false
  end.

Definition is_spin (e : Event) : bool :=
  match e with
  | EvSpin => true
  | _ => false
  end.

Definition fatal_count (t : list Event) : nat := List.length (filter is_fatal t).

Definition spun (t : list Event) : bool := existsb is_spin t.


(** The two shapes a nominal run can take, for the node [n]. *)
Definition success_prefix (n : NodeHandle) : list Event :=
  [EvInit; EvConstruct true true; EvAddNode n; EvSpin].

Definition failure_trace (n : NodeHandle) : list Event :=
  [EvInit; EvConstruct true false; EvLog n Fatal fatal_message; EvShutdown].

Definition quiet_node : NodeHandle := {| node_name := "gravity_compensation" |}.

(** The design note of section 9, read as a property of [main]: the
    outcome of initialisation is the value that initialisation returns, so
    two constructors that hand back the same object drive [main] the same
    way. *)
Definition outcome_is_returned : Prop :=
  forall (c1 c2 : Constructor) (spin_returns slot : bool),
    ctor_node c1 = ctor_node c2 ->
    run {| env_ctor := c1; env_spin_returns := spin_returns |} slot =
    run {| env_ctor := c2; env_spin_returns := spin_returns |} slot.



End Node.

(** ** The gravity-torque core

    The dynamics code is not part of the translation unit above; the
    definitions of this module follow the written design of the
    KinematicDynamicModel, over the real numbers. *)

Module Dynamics.

Local Open Scope R_scope.

Record vec3 := mkV { vx : R; vy : R; vz : R }.

(** A 3x3 matrix, by rows. *)
Record mat3 := mkM { row1 : vec3; row2 : vec3; row3 : vec3 }.

Definition vzero : vec3 := mkV 0 0 0.

Definition vadd (a b : vec3) : vec3 :=
  mkV (vx a + vx b) (vy a + vy b) (vz a + vz b).

Definition vsub (a b : vec3) : vec3 :=
  mkV (vx a - vx b) (vy a - vy b) (vz a - vz b).

Definition vscale (k : R) (a : vec3) : vec3 :=
  mkV (k * vx a) (k * vy a) (k * vz a).

Definition dot (a b : vec3) : R :=
  vx a * vx b + vy a * vy b + vz a * vz b.

Definition cross (a b : vec3) : vec3 :=
  mkV (vy a * vz b - vz a * vy b)
      (vz a * vx b - vx a * vz b)
      (vx a * vy b - vy a * vx b).

Definition mident : mat3 := mkM (mkV 1 0 0) (mkV 0 1 0) (mkV 0 0 1).

Definition mvmul (m : mat3) (v : vec3) : vec3 :=
  mkV (dot (row1 m) v) (dot (row2 m) v) (dot (row3 m) v).

Definition col1 (m : mat3) : vec3 := mkV (vx (row1 m)) (vx (row2 m)) (vx (row3 m)).
Definition col2 (m : mat3) : vec3 := mkV (vy (row1 m)) (vy (row2 m)) (vy (row3 m)).
Definition col3 (m : mat3) : vec3 := mkV (vz (row1 m)) (vz (row2 m)) (vz (row3 m)).

Definition mmul (a b : mat3) : mat3 :=
  mkM (mkV (dot (row1 a) (col1 b)) (dot (row1 a) (col2 b)) (dot (row1 a) (col3 b)))
      (mkV (dot (row2 a) (col1 b)) (dot (row2 a) (col2 b)) (dot (row2 a) (col3 b)))
      (mkV (dot (row3 a) (col1 b)) (dot (row3 a) (col2 b)) (dot (row3 a) (col3 b))).

(** Rotation by [q] about the axis [a] (Rodrigues' formula:
    cos q I + sin q [a]x + (1 - cos q) a a^T). *)
Definition rot_axis (a : vec3) (q : R) : mat3 :=
  let c := cos q in
  let s := sin q in
  let t := 1 - c in
  mkM (mkV (c + t * vx a * vx a) (t * vx a * vy a - s * vz a) (t * vx a * vz a + s * vy a))
      (mkV (t * vy a * vx a + s * vz a) (c + t * vy a * vy a) (t * vy a * vz a - s * vx a))
      (mkV (t * vz a * vx a - s * vy a) (t * vz a * vy a + s * vx a) (c + t * vz a * vz a)).

(** Modelled from the spec: the Link entry of the KinematicChain (section
    3): mass, centre-of-mass offset in the link's own frame, inertia
    tensor, joint axis, and the fixed part (rotation and translation) of
    the parent-to-child transform; the joint variable turns the link about
    its axis. *)
Record Link := {
  mass : R;
  com : vec3;
  inertia : mat3;
  axis : vec3;
  origin_rot : mat3;
  origin_trans : vec3
}.

Definition KinematicChain := list Link.

(** A frame expressed in the base frame: orientation and position. *)
Record Frame := { f_rot : mat3; f_pos : vec3 }.

Definition base_frame : Frame := {| f_rot := mident; f_pos := vzero |}.

(** Modelled from the spec: the parent-to-child transform of a link,
    "parameterized by that link's joint variable" (section 3), applied to
    the parent's frame. *)
Definition child_frame (parent : Frame) (l : Link) (q : R) : Frame :=
  {| f_rot := mmul (f_rot parent) (mmul (origin_rot l) (rot_axis (axis l) q));
     f_pos := vadd (f_pos parent) (mvmul (f_rot parent) (origin_trans l)) |}.

(** A link placed in the base frame: where its joint sits, where its
    joint axis points, where its centre of mass is, and how heavy it is. *)
Record Placed := {
  p_origin : vec3;
  p_axis : vec3;
  p_com : vec3;
  p_mass : R
}.

Definition place (parent : Frame) (l : Link) (q : R) : Placed :=
  let f := child_frame parent l q in
  {| p_origin := f_pos f;
     p_axis := mvmul (f_rot f) (axis l);
     p_com := vadd (f_pos f) (mvmul (f_rot f) (com l));
     p_mass := mass l |}.

(** Modelled from the spec: "propagate link transforms from base to tip
    using the current joint positions" (section 4.1).  A chain longer than
    the position vector reads the missing positions as 0, so an N-joint
    chain always yields N entries. *)
Fixpoint propagate (parent : Frame) (chain : KinematicChain) (q : list R)
  : list Placed :=
  match chain with
  | [] => []
  | l :: rest =>
      let qi := hd 0 q in
      place parent l qi :: propagate (child_frame parent l qi) rest (tl q)
  end.

(** The moment of a force [f] applied at [p], projected on [z]. *)
Definition moment (z p f : vec3) : R := dot z (cross p f).

(** The torque that holds one link's weight, about one joint: the weight
    [m g] acts at the centre of mass; its moment about the joint origin is
    projected onto the joint axis and negated (it is the derivative of the
    link's potential energy with respect to the joint angle). *)
Definition weight_torque (g : vec3) (joint : Placed) (l : Placed) : R :=
  - moment (p_axis joint)
           (vsub (p_com l) (p_origin joint))
           (vscale (p_mass l) g).

Definition joint_torque (g : vec3) (joint : Placed) (downstream : list Placed) : R :=
  fold_right (fun l acc => weight_torque g joint l + acc) 0 downstream.

(** Modelled from the spec: "accumulate, for each joint from tip to base,
    the torque contribution of every downstream link's weight acting at
    its center of mass, projected onto that joint's axis" (section 4.1). *)
Fixpoint accumulate (g : vec3) (placed : list Placed) : list R :=
  match placed with
  | [] => []
  | j :: rest => joint_torque g j (j :: rest) :: accumulate g rest
  end.

(** Modelled from the spec: [computeGravityTorque(jointPositions) ->
    torqueVector] of the KinematicDynamicModel (section 4.1), which the
    translation unit at hand does not contain. *)
Definition computeGravityTorque (chain : KinematicChain) (g : vec3) (q : list R)
  : list R :=
  accumulate g (propagate base_frame chain q).

(** The single-joint pendulum of section 8: a point mass [m] at distance
    [r] from the joint axis [a], hanging along the unit direction [u] of
    gravity when the joint angle is 0; [h] shifts the mass along the axis
    and [t0] places the joint in the base frame. *)
Definition pendulum (m r h : R) (a u t0 : vec3) : Link :=
  {| mass := m;
     com := vadd (vscale r u) (vscale h a);
     inertia := mkM vzero vzero vzero;
     axis := a;
     origin_rot := mident;
     origin_trans := t0 |}.

Definition with_mass (m : R) (l : Link) : Link :=
  {| mass := m; com := com l; inertia := inertia l; axis := axis l;
     origin_rot := origin_rot l; origin_trans := origin_trans l |}.

(** The frame at the tip of a chain. *)
Fixpoint frame_after (parent : Frame) (chain : KinematicChain) (q : list R)
  : Frame :=
  match chain with
  | [] => parent
  | l :: rest => frame_after (child_frame parent l (hd 0 q)) rest (tl q)
  end.

(** Torque on joint [j] of [chain] at positions [q]. *)
Definition torque_at (chain : KinematicChain) (g : vec3) (q : list R) (j : nat) : R :=
  nth j (computeGravityTorque chain g q) 0.

(** Torque on joint [j] once the link [l], given mass [m] and held at the
    joint position [qn], is appended to the tip of [chain]. *)
Definition appended_torque (chain : KinematicChain) (l : Link) (g : vec3)
    (q : list R) (qn : R) (j : nat) (m : R) : R :=
  torque_at (chain ++ [with_mass m l]) g (q ++ [qn]) j.

(** Section 8, odd symmetry, read for an arbitrary single-joint chain. *)
Definition odd_symmetric (l : Link) (g : vec3) : Prop :=
  forall theta : R,
    computeGravityTorque [l] g [- theta] =
    map Ropp (computeGravityTorque [l] g [theta]).

(** Section 8, the appended link, read for an arbitrary chain: the
    magnitude of the torque on an upstream joint grows with the appended
    mass. *)
Definition magnitude_grows_with_mass (chain : KinematicChain) (l : Link)
    (g : vec3) (q : list R) (qn : R) (j : nat) : Prop :=
  forall m1 m2 : R,
    0 <= m1 <= m2 ->
    Rabs (appended_torque chain l g q qn j m1) <=
    Rabs (appended_torque chain l g q qn j m2).

(** An arm that lies across gravity at joint angle 0: unit mass one unit
    along x, turning about z. *)
Definition horizontal_arm : Link :=
  {| mass := 1; com := mkV 1 0 0; inertia := mkM vzero vzero vzero;
     axis := mkV 0 0 1; origin_rot := mident; origin_trans := vzero |}.

(** A counterweight: its centre of mass sits two units along -x of its
    joint, which coincides with the parent's. *)
Definition counterweight : Link :=
  {| mass := 1; com := mkV (-2) 0 0; inertia := mkM vzero vzero vzero;
     axis := mkV 0 0 1; origin_rot := mident; origin_trans := vzero |}.

Definition gravity_down : vec3 := mkV 0 (- (981 / 100)) 0.

End Dynamics.

(** ** The control loop

    Like the torque core, the scheduler is outside the translation unit
    above; this module follows sections 4.2 to 4.4 of the design. *)

Module Scheduler.

Import Dynamics.

Local Open Scope Z_scope.

(** Modelled from the spec: the JointState of section 3, one sensor
    sample: per-joint positions and velocities and a single timestamp
    (nanoseconds). *)
Record JointState := {
  positions : list R;
  velocities : list R;
  stamp : Z
}.

(** Modelled from the spec: the KinematicDynamicModel of section 2 owns
    the chain and the gravity vector. *)
Record KinematicDynamicModel := {
  chain : KinematicChain;
  gravity : vec3
}.

Definition TorqueCommand := list R.

(** Modelled from the spec: the scheduler's states (section 4.4). *)
Inductive SchedState := Uninitialized | Running | Stopped.

(** The two conditions a tick can log (section 4.4, steps 2 and 3). *)
Inductive Condition := DegradedInput | Fault.

Inductive SolveError := NumericError.

(** What one tick does, in order. *)
Inductive TickEvent :=
| ReadLatest (age : Z)
| InvokeSolver (q : list R)
| Emit (cmd : TorqueCommand)
| Log (c : Condition).

(** Modelled from the spec: the ControlLoopScheduler with what it reads
    each tick (the model, the JointStateBuffer's snapshot, the configured
    staleness threshold), the command last handed to the sink, and a
    journal of what its ticks did. *)
Record Scheduler := {
  model : KinematicDynamicModel;
  buffer : JointState;
  staleness_threshold : Z;
  sched_state : SchedState;
  last_command : TorqueCommand;
  journal : list TickEvent
}.

Definition is_invoke (e : TickEvent) : bool :=
  match e with
  | InvokeSolver _ => true
  | _ => false
  end.

Definition solver_calls (j : list TickEvent) : nat :=
  List.length (filter is_invoke j).

Definition emitted (j : list TickEvent) : list TorqueCommand :=
  flat_map (fun e => match e with Emit c => [c] | _ => [] end) j.

(** Modelled from the spec: [write(sample)] of the JointStateBuffer
    (section 4.2) replaces the snapshot wholesale. *)
Definition write (sample : JointState) (s : Scheduler) : Scheduler :=
  {| model := model s; buffer := sample;
     staleness_threshold := staleness_threshold s;
     sched_state := sched_state s; last_command := last_command s;
     journal := journal s |}.

(** Modelled from the spec: [readLatest() -> (sample, age)] of the
    JointStateBuffer (section 4.2). *)
Definition readLatest (now : Z) (s : Scheduler) : JointState * Z :=
  (buffer s, now - stamp (buffer s)).

Definition record (e : TickEvent) (s : Scheduler) : Scheduler :=
  {| model := model s; buffer := buffer s;
     staleness_threshold := staleness_threshold s;
     sched_state := sched_state s; last_command := last_command s;
     journal := journal s ++ [e] |}.

(** Hand a command to the actuator sink. *)
Definition emit (cmd : TorqueCommand) (s : Scheduler) : Scheduler :=
  {| model := model s; buffer := buffer s;
     staleness_threshold := staleness_threshold s;
     sched_state := sched_state s; last_command := cmd;
     journal := journal s ++ [Emit cmd] |}.

(** Modelled from the spec: the fail-safe command of section 4.4, zero
    torque on every joint of the chain. *)
Definition zero_command (m : KinematicDynamicModel) : TorqueCommand :=
  repeat 0%R (List.length (chain m)).

Definition fail_safe (c : Condition) (s : Scheduler) : Scheduler :=
  emit (zero_command (model s)) (record (Log c) s).

Section WithFloatClass.

(** The design's torques are double-precision; over the reals the test
    "this component is finite" is a parameter of the solver. *)
Variable is_finite : R -> bool.

(** Modelled from the spec: the GravityTorqueSolver (section 4.3): call
    [computeGravityTorque] on the sample's positions and report
    NumericError when a component is not finite. *)
Definition solve (m : KinematicDynamicModel) (q : list R)
  : SolveError + TorqueCommand :=
  let tau := computeGravityTorque (chain m) (gravity m) q in
  if forallb is_finite tau then inr tau else inl NumericError.

(** Modelled from the spec: one tick of the ControlLoopScheduler, steps 1
    to 4 of section 4.4; the scheduler fires only while [Running]. *)
Definition tick (now : Z) (s : Scheduler) : Scheduler :=
  match sched_state s with
  | Running =>
      let '(sample, age) := readLatest now s in
      let s1 := record (ReadLatest age) s in
      if staleness_threshold s <? age then
        fail_safe DegradedInput s1
      else
        let s2 := record (InvokeSolver (positions sample)) s1 in
        match solve (model s) (positions sample) with
        | inl NumericError => fail_safe Fault s2
        | inr cmd => emit cmd s2
        end
  | Uninitialized | Stopped => s
  end.

(** What a tick adds to the journal. *)
Definition tick_events (now : Z) (s : Scheduler) : list TickEvent :=
  skipn (List.length (journal s)) (journal (tick now s)).

End WithFloatClass.

(** A one-joint model for concrete runs; the scheduler around it holds a
    sample stamped [t] with positions [q] and velocities [v], the previous
    command [last] and the journal [j]; its staleness threshold is 100. *)
Definition demo_model : KinematicDynamicModel :=
  {| chain := [horizontal_arm]; gravity := gravity_down |}.

(** The running scheduler around [demo_model]. *)
Definition demo_scheduler (t : Z) (q v last : list R) (j : list TickEvent)
  : Scheduler :=
  {| model := demo_model;
     buffer := {| positions := q; velocities := v; stamp := t |};
     staleness_threshold := 100;
     sched_state := Running;
     last_command := last;
     journal := j |}.

End Scheduler.

(** * Properties of the entry point *)

Module NodeFacts.

Import Node.
Local Open Scope Z_scope.
Local Open Scope proc_scope.

Lemma last_cons_default (b : bool) (rest : list bool) (d : bool) :
  last (b :: rest) d = last rest b.
Proof.
  revert b d. induction rest as [|x rest IH]; intros b d; [reflexivity|].
  change (last (b :: x :: rest) d) with (last (x :: rest) d).
  now rewrite (IH x d), (IH x b).
Qed.

Lemma assign_all_spec ws w :
  assign_all ws w =
  (Returned tt, {| success := last ws (success w); trace := trace w |}).
Proof.
  revert w. induction ws as [|b rest IH]; intros w.
  - destruct w; reflexivity.
  - cbn [assign_all]. unfold bind, set_success. rewrite IH. cbn [success trace].
    now rewrite last_cons_default.
Qed.

Lemma make_shared_spec b w :
  make_shared b w =
  finish (b_response b CConstruct) (ctor_node (b_ctor b))
   {| success := last (ctor_writes (b_ctor b)) (success w);
      trace := trace w ++
               [EvConstruct (success w)
                  (last (ctor_writes (b_ctor b)) (success w))] |}.
Proof.
  unfold make_shared, bind, get_success. rewrite assign_all_spec. reflexivity.
Qed.

(** Every run of [main], whatever the called functions do: the calls are
    made in program order until one of them fails to return. *)
Lemma main_spec (b : Behaviour) (slot : bool) :
  main b (start slot) =
  let r := b_response b in
  let n := ctor_node (b_ctor b) in
  let f := flag_after (b_ctor b) in
  match r CInit with
  | Normal =>
      match r CConstruct with
      | Normal =>
          if f then
            match r CAddNode with
            | Normal =>
                match r CSpin with
                | Normal =>
                    (match r CShutdown with
                     | Normal => Returned 0
                     | e => cut_short e
                     end,
                     {| success := true;
                        trace := success_prefix n ++ [EvShutdown] |})
                | e => (cut_short e,
                        {| success := true; trace := success_prefix n |})
                end
            | e => (cut_short e,
                    {| success := true;
                       trace := [EvInit; EvConstruct true true; EvAddNode n] |})
            end
          else
            match r CLog with
            | Normal =>
                (match r CShutdown with
                 | Normal => Returned 1
                 | e => cut_short e
                 end,
                 {| success := false; trace := failure_trace n |})
            | e => (cut_short e,
                    {| success := false;
                       trace := [EvInit; EvConstruct true false;
                                 EvLog n Fatal fatal_message] |})
            end
      | e => (cut_short e,
              {| success := f; trace := [EvInit; EvConstruct true f] |})
      end
  | e => (cut_short e, {| success := slot; trace := [EvInit] |})
  end.
Proof.
  cbv zeta. unfold main, start, flag_after.
  unfold bind at 1. unfold rclcpp_init, bind at 1, emit. cbn [success trace app].
  destruct (b_response b CInit); cbn [finish ret throw block]; try reflexivity.
  unfold bind at 1. cbn [set_success success trace].
  unfold bind at 1. rewrite make_shared_spec. cbn [success trace app].
  destruct (b_response b CConstruct); cbn [finish ret throw block];
    try reflexivity.
  unfold bind at 1. cbn [get_success success].
  destruct (last (ctor_writes (b_ctor b)) true) eqn:Hf.
  - unfold bind at 1. unfold bind at 1. unfold add_node, bind at 1, emit.
    cbn [success trace app].
    destruct (b_response b CAddNode); cbn [finish ret throw block];
      try reflexivity.
    unfold bind at 1. unfold spin, bind at 1, emit. cbn [success trace app].
    destruct (b_response b CSpin); cbn [finish ret throw block];
      try reflexivity.
    unfold bind at 1. unfold rclcpp_shutdown, bind at 1, emit.
    cbn [success trace app].
    destruct (b_response b CShutdown); reflexivity.
  - unfold bind at 1. unfold bind at 1. unfold RCLCPP_FATAL, bind at 1, emit.
    cbn [success trace app].
    destruct (b_response b CLog); cbn [finish ret throw block];
      try reflexivity.
    unfold bind at 1. unfold rclcpp_shutdown, bind at 1, emit.
    cbn [success trace app].
    destruct (b_response b CShutdown); reflexivity.
Qed.

(** Case analysis on how the calls of a run end, as far as the run gets. *)
Ltac by_responses :=
  repeat match goal with
         | |- context [match ?r ?c with Normal => _ | Throws => _ | Hangs => _ end] =>
             destruct (r c) eqn:?
         | |- context [if flag_after ?c then _ else _] =>
             destruct (flag_after c) eqn:?
         end.

(** Every nominal run of [main] has one of three shapes, chosen by the
    flag after construction and by whether [spin] comes back. *)
Lemma run_spec env slot :
  run env slot =
  let n := ctor_node (env_ctor env) in
  if flag_after (env_ctor env) then
    if env_spin_returns env then
      (Returned 0, {| success := true; trace := success_prefix n ++ [EvShutdown] |})
    else
      (Blocked, {| success := true; trace := success_prefix n |})
  else
    (Returned 1, {| success := false; trace := failure_trace n |}).
Proof.
  unfold run. rewrite main_spec. cbn [nominal b_ctor b_response].
  destruct (flag_after (env_ctor env)); [destruct (env_spin_returns env)|];
    reflexivity.
Qed.


(** C1: when the flag is false after construction, [main] logs exactly one
    fatal diagnostic, never enters [spin], and exits with the non-zero
    status 1; when the flag is true, [spin] is entered. *)
Theorem main_failure_is_fatal_once_and_never_spins (env : Env) (slot : bool) :
  if flag_after (env_ctor env) then
    spun (events env slot) = true /\ fatal_count (events env slot) = 0%nat
  else
    fatal_count (events env slot) = 1%nat /\
    spun (events env slot) = false /\
    exists status, exit_status env slot = Returned status /\ status <> 0.
Proof.
  unfold events, exit_status. rewrite run_spec. cbv zeta.
  destruct (flag_after (env_ctor env)).
  - destruct (env_spin_returns env); split; reflexivity.
  - repeat split. exists 1. split; [reflexivity | discriminate].
Qed.

(** C2 as stated fails: a constructor that leaves the flag alone and one
    that assigns [false] return the same object, and [main] exits 0 after
    the one and 1 after the other. *)
Lemma outcome_is_not_returned : ~ outcome_is_returned.
Proof.
  intros H.
  specialize (H {| ctor_node := quiet_node; ctor_writes := [] |}
                {| ctor_node := quiet_node; ctor_writes := [false] |}
                true true eq_refl).
  rewrite !run_spec in H. discriminate H.
Qed.

(** C2, amended: the outcome of initialisation reaches [main] through the
    [bool &] out-parameter.  Take two constructors whose last assignment
    to the flag agrees (no assignment counting as [true]), and let every
    called function end the same way in both runs: then [main] makes the
    same calls in the same order and ends the same way, whatever objects
    the constructors return and whatever the slot held before.  The
    returned object only names the node that is added or logged through:
    with equal objects the traces are equal. *)
Theorem outcome_travels_through_the_flag
  (c1 c2 : Constructor) (r : Call -> Response) (slot1 slot2 : bool)
  (Hflag : flag_after c1 = flag_after c2) :
  let run1 := main {| b_ctor := c1; b_response := r |} (start slot1) in
  let run2 := main {| b_ctor := c2; b_response := r |} (start slot2) in
  fst run1 = fst run2 /\
  map call_of (trace (snd run1)) = map call_of (trace (snd run2)) /\
  (ctor_node c1 = ctor_node c2 -> trace (snd run1) = trace (snd run2)).
Proof.
  cbv zeta. rewrite !main_spec. cbv zeta. cbn [b_ctor b_response].
  rewrite Hflag. by_responses; cbn [fst snd trace];
    (split; [reflexivity|split; [reflexivity|intros Hn; rewrite ?Hn; reflexivity]]).
Qed.

Lemma outcome_travels_through_the_flag_witness :
  fst (main {| b_ctor := {| ctor_node := {| node_name := "a" |};
                            ctor_writes := [true; false] |};
               b_response := fun _ => Normal |} (start false)) =
  fst (main {| b_ctor := {| ctor_node := {| node_name := "b" |};
                            ctor_writes := [false] |};
               b_response := fun _ => Normal |} (start true)).
Proof.
  apply (outcome_travels_through_the_flag
           {| ctor_node := {| node_name := "a" |}; ctor_writes := [true; false] |}
           {| ctor_node := {| node_name := "b" |}; ctor_writes := [false] |}
           (fun _ => Normal) false true).
  reflexivity.
Defined.




(** C10: with the flag true and [spin] back, [main] calls
    [rclcpp::shutdown] and returns 0; it returns 1 exactly when the flag
    is false; and no other non-zero status exists. *)
Theorem main_exit_status (env : Env) (slot : bool) :
  run env slot =
    (if flag_after (env_ctor env) then
       if env_spin_returns env then
         (Returned 0, {| success := true;
                         trace := [EvInit; EvConstruct true true;
                                   EvAddNode (ctor_node (env_ctor env));
                                   EvSpin; EvShutdown] |})
       else (Blocked, {| success := true;
                         trace := success_prefix (ctor_node (env_ctor env)) |})
     else (Returned 1, {| success := false;
                          trace := failure_trace (ctor_node (env_ctor env)) |})) /\
  (exit_status env slot = Returned 1 <-> flag_after (env_ctor env) = false) /\
  (forall status, exit_status env slot = Returned status ->
     status = 0 \/ status = 1) /\
  ((exists status, exit_status env slot = Returned status /\ status <> 0) <->
   flag_after (env_ctor env) = false).
Proof.
  split; [apply run_spec|].
  unfold exit_status. rewrite run_spec. cbv zeta.
  destruct (flag_after (env_ctor env)); [destruct (env_spin_returns env)|];
    cbn [fst].
  - repeat split; try discriminate.
    + intros status [= <-]. now left.
    + intros (status & [= <-] & Hne). now elim Hne.
  - repeat split; try discriminate.
    intros (status & Heq & _). discriminate.
  - repeat split; try discriminate.
    + intros status [= <-]. now right.
    + intros _. exists 1. split; [reflexivity|discriminate].
Qed.

End NodeFacts.

(** * Properties of the torque core *)

Module DynamicsFacts.

Import Dynamics.
Local Open Scope R_scope.

(** ** Vector algebra *)

(** Two vectors are equal when their components are; [ring] settles each
    component. *)
Ltac vec_ring :=
  unfold mmul, mvmul, rot_axis, col1, col2, col3, mident, vzero,
    vadd, vsub, vscale, cross, dot;
  cbn [vx vy vz row1 row2 row3];
  repeat match goal with
         | |- mkM _ _ _ = mkM _ _ _ => f_equal
         | |- mkV _ _ _ = mkV _ _ _ => f_equal
         end;
  ring.

Lemma mmul_ident_l (m : mat3) : mmul mident m = m.
Proof. destruct m as [[a b c] [d e f] [g h i]]. vec_ring. Qed.

Lemma mvmul_mmul (m n : mat3) (v : vec3) :
  mvmul (mmul m n) v = mvmul m (mvmul n v).
Proof.
  destruct m as [[a b c] [d e f] [g h i]], n as [[a' b' c'] [d' e' f'] [g' h' i']],
    v as [x y z].
  vec_ring.
Qed.

Lemma mvmul_ident (v : vec3) : mvmul mident v = v.
Proof. destruct v as [x y z]. vec_ring. Qed.

Lemma vsub_vadd (o v : vec3) : vsub (vadd o v) o = v.
Proof. destruct o, v. vec_ring. Qed.

Lemma mvmul_vadd (m : mat3) (u v : vec3) :
  mvmul m (vadd u v) = vadd (mvmul m u) (mvmul m v).
Proof. destruct m as [[a b c] [d e f] [g h i]], u, v. vec_ring. Qed.

Lemma mvmul_vscale (m : mat3) (k : R) (v : vec3) :
  mvmul m (vscale k v) = vscale k (mvmul m v).
Proof. destruct m as [[a b c] [d e f] [g h i]], v. vec_ring. Qed.

(** Rodrigues' formula, applied to a vector. *)
Lemma rot_axis_apply (a : vec3) (q : R) (v : vec3) :
  mvmul (rot_axis a q) v =
  vadd (vadd (vscale (cos q) v) (vscale (sin q) (cross a v)))
       (vscale ((1 - cos q) * dot a v) a).
Proof. destruct a as [ax ay az], v as [x y z]. vec_ring. Qed.

(** Turning about an axis only rescales the axis itself (by 1 when the
    axis is a unit vector). *)
Lemma rot_axis_fixes_axis (a : vec3) (q : R) :
  mvmul (rot_axis a q) a = vscale (cos q + (1 - cos q) * dot a a) a.
Proof. destruct a as [ax ay az]. vec_ring. Qed.

Lemma moment_expand (k c s mu : R) (z p d f : vec3) :
  moment (vscale k z)
         (vadd (vadd (vscale c p) (vscale s d)) (vscale mu z)) f =
  k * (c * moment z p f + s * moment z d f).
Proof. destruct z, p, d, f. unfold moment. vec_ring. Qed.

(** ** One joint *)

Lemma single_joint_singleton (l : Link) (g : vec3) (q : list R) :
  computeGravityTorque [l] g q = [torque_at [l] g q 0].
Proof. reflexivity. Qed.

(** The torque on a single joint, as a function of its angle: a multiple
    of cos q and a multiple of sin q, scaled by a factor that is 1 for a
    unit axis. *)
Lemma single_joint_torque (l : Link) (g : vec3) (q : R) :
  let z := mvmul (origin_rot l) (axis l) in
  let f := vscale (mass l) g in
  torque_at [l] g [q] 0 =
  - ((cos q + (1 - cos q) * dot (axis l) (axis l)) *
     (cos q * moment z (mvmul (origin_rot l) (com l)) f +
      sin q * moment z (mvmul (origin_rot l) (cross (axis l) (com l))) f)).
Proof.
  cbv zeta. unfold torque_at, computeGravityTorque.
  cbn [propagate accumulate hd tl nth joint_torque fold_right].
  unfold weight_torque, place. cbn [p_axis p_com p_origin p_mass].
  rewrite vsub_vadd. unfold child_frame, base_frame. cbn [f_rot f_pos].
  rewrite mmul_ident_l, !mvmul_mmul, rot_axis_fixes_axis, rot_axis_apply.
  rewrite !mvmul_vadd, !mvmul_vscale, moment_expand. ring.
Qed.

Lemma pendulum_moments (m r h g0 : R) (a u : vec3) :
  moment a (vadd (vscale r u) (vscale h a)) (vscale m (vscale g0 u)) = 0 /\
  moment a (cross a (vadd (vscale r u) (vscale h a))) (vscale m (vscale g0 u)) =
  - (m * g0 * r * (dot a a * dot u u - dot a u * dot a u)).
Proof.
  destruct a as [ax ay az], u as [ux uy uz]. unfold moment.
  split; vec_ring.
Qed.

(** The pendulum's torque as a polynomial identity, before the axis and
    the direction of gravity are known to be orthonormal. *)
Lemma pendulum_torque_poly (m r h g0 : R) (a u t0 : vec3) (theta : R) :
  torque_at [pendulum m r h a u t0] (vscale g0 u) [theta] 0 =
  (cos theta + (1 - cos theta) * dot a a) *
  (m * g0 * r * sin theta * (dot a a * dot u u - dot a u * dot a u)).
Proof.
  rewrite single_joint_torque. unfold pendulum.
  cbn [mass com axis origin_rot]. rewrite !mvmul_ident.
  destruct (pendulum_moments m r h g0 a u) as [-> ->]. ring.
Qed.



(** Evaluate a torque on concrete links down to arithmetic on reals. *)
Ltac unfold_geometry :=
  cbv [torque_at appended_torque computeGravityTorque
       app propagate accumulate hd tl nth joint_torque fold_right
       weight_torque moment place child_frame base_frame horizontal_arm
       counterweight gravity_down with_mass mmul mvmul rot_axis dot cross
       vsub vadd vscale col1 col2 col3 mident vzero
       vx vy vz row1 row2 row3 f_rot f_pos p_axis p_com p_origin p_mass
       mass com axis origin_rot origin_trans].

Lemma horizontal_arm_torque_at_zero :
  torque_at [horizontal_arm] gravity_down [0] 0 = 981 / 100.
Proof. unfold_geometry. rewrite cos_0, sin_0. field. Qed.

(** C7 as stated fails: the arm that lies across gravity at angle 0 needs
    the torque 9.81 there, and 9.81 is not its own negation. *)
Lemma horizontal_arm_not_odd : ~ (forall l g, odd_symmetric l g).
Proof.
  intros H. specialize (H horizontal_arm gravity_down 0).
  rewrite Ropp_0, single_joint_singleton, horizontal_arm_torque_at_zero in H.
  cbn [map] in H. injection H as H. lra.
Qed.

(** C7, amended: a single-joint chain whose torque vanishes at angle 0
    (the angle is measured from a gravity-aligned pose) has an odd torque
    function: the torque at [- theta] is the negation of the torque at
    [theta], for every [theta]. *)
Theorem single_joint_odd_symmetry (l : Link) (g : vec3)
  (Hzero : computeGravityTorque [l] g [0] = [0]) :
  odd_symmetric l g.
Proof.
  intros theta. rewrite !single_joint_singleton. cbn [map]. f_equal.
  rewrite single_joint_singleton in Hzero. injection Hzero as Hzero.
  rewrite single_joint_torque in Hzero. cbv zeta in Hzero.
  rewrite cos_0, sin_0 in Hzero.
  rewrite !single_joint_torque. cbv zeta. rewrite cos_neg, sin_neg.
  set (x := moment _ (mvmul (origin_rot l) (com l)) _) in *.
  set (y := moment _ (mvmul (origin_rot l) (cross (axis l) (com l))) _) in *.
  assert (Hx : x = 0) by lra.
  rewrite Hx. ring.
Qed.

Lemma single_joint_odd_symmetry_witness :
  odd_symmetric (pendulum 2 (1 / 2) 0 (mkV 1 0 0) (mkV 0 0 (-1)) vzero)
                (vscale (981 / 100) (mkV 0 0 (-1))).
Proof.
  apply (single_joint_odd_symmetry
           (pendulum 2 (1 / 2) 0 (mkV 1 0 0) (mkV 0 0 (-1)) vzero)
           (vscale (981 / 100) (mkV 0 0 (-1)))).
  rewrite single_joint_singleton, pendulum_torque_poly, sin_0.
  f_equal. ring.
Defined.

(** ** Appending a link at the tip *)

Lemma propagate_length (f : Frame) (chain : KinematicChain) (q : list R) :
  length (propagate f chain q) = length chain.
Proof.
  revert f q. induction chain as [|l rest IH]; intros f q; cbn; [|rewrite IH];
    reflexivity.
Qed.

Lemma accumulate_length (g : vec3) (placed : list Placed) :
  length (accumulate g placed) = length placed.
Proof. induction placed as [|p rest IH]; cbn; [|rewrite IH]; reflexivity. Qed.

Lemma propagate_snoc (f : Frame) (chain : KinematicChain) (l : Link) (q : list R) :
  propagate f (chain ++ [l]) q =
  propagate f chain q ++
  [place (frame_after f chain q) l (hd 0 (skipn (length chain) q))].
Proof.
  revert f q. induction chain as [|l0 rest IH]; intros f q.
  - reflexivity.
  - cbn [app propagate frame_after length]. rewrite IH.
    destruct q as [|q0 q']; cbn [tl skipn app]; [|reflexivity].
    now rewrite skipn_nil.
Qed.

(** Positions past the end of the chain are never read. *)
Lemma propagate_ignores_extra (f : Frame) (chain : KinematicChain)
    (q extra : list R) :
  length q = length chain ->
  propagate f chain (q ++ extra) = propagate f chain q /\
  frame_after f chain (q ++ extra) = frame_after f chain q /\
  skipn (length chain) (q ++ extra) = extra.
Proof.
  revert f q. induction chain as [|l rest IH]; intros f q Hlen.
  - destruct q; [now cbn | discriminate].
  - destruct q as [|q0 q']; [discriminate|].
    injection Hlen as Hlen. cbn [app propagate frame_after hd tl length skipn].
    destruct (IH (child_frame f l q0) q' Hlen) as (-> & -> & ->). auto.
Qed.

Lemma joint_torque_snoc (g : vec3) (j : Placed) (ds : list Placed) (x : Placed) :
  joint_torque g j (ds ++ [x]) = joint_torque g j ds + weight_torque g j x.
Proof.
  unfold joint_torque. induction ds as [|d rest IH]; cbn [app fold_right].
  - ring.
  - rewrite IH. ring.
Qed.

(** One more link at the tip adds its own weight's moment to every joint
    upstream and leaves the rest of the sum alone. *)
Lemma accumulate_snoc (g : vec3) (placed : list Placed) (x : Placed) (j : nat) :
  (j < length placed)%nat ->
  nth j (accumulate g (placed ++ [x])) 0 =
  nth j (accumulate g placed) 0 + weight_torque g (nth j placed x) x.
Proof.
  revert j. induction placed as [|p rest IH]; intros j Hj; [inversion Hj|].
  destruct j as [|j].
  - cbn [app accumulate nth]. apply (joint_torque_snoc g p (p :: rest) x).
  - cbn [app accumulate nth]. apply IH. cbn in Hj. apply PeanoNat.lt_S_n, Hj.
Qed.

Lemma weight_torque_scales (g : vec3) (j : Placed) (f : Frame) (l : Link)
    (q m : R) :
  weight_torque g j (place f (with_mass m l) q) =
  m * weight_torque g j (place f (with_mass 1 l) q).
Proof.
  unfold weight_torque, moment, place, with_mass, child_frame.
  cbn [p_com p_mass p_origin p_axis mass com axis origin_rot origin_trans
       f_rot f_pos].
  unfold dot, cross, vscale. cbn [vx vy vz]. ring.
Qed.

(** The torque on an upstream joint is affine in the appended mass. *)
Lemma appended_torque_affine (chain : KinematicChain) (l : Link) (g : vec3)
    (q : list R) (qn : R) (j : nat) :
  length q = length chain -> (j < length chain)%nat ->
  exists k, forall m,
    appended_torque chain l g q qn j m = torque_at chain g q j + m * k.
Proof.
  intros Hlen Hj.
  destruct (propagate_ignores_extra base_frame chain q [qn] Hlen)
    as (Hp & Hf & Hs).
  exists (weight_torque g
            (nth j (propagate base_frame chain q)
               (place (frame_after base_frame chain q) (with_mass 1 l) qn))
            (place (frame_after base_frame chain q) (with_mass 1 l) qn)).
  intros m. unfold appended_torque, torque_at, computeGravityTorque.
  rewrite propagate_snoc, Hp, Hf, Hs. cbn [hd].
  rewrite accumulate_snoc by (now rewrite propagate_length).
  rewrite weight_torque_scales. do 3 f_equal.
  apply nth_indep. now rewrite propagate_length.
Qed.

Lemma affine_magnitude_monotone (t0 k m1 m2 : R) :
  0 <= t0 * k -> 0 <= m1 <= m2 -> Rabs (t0 + m1 * k) <= Rabs (t0 + m2 * k).
Proof.
  intros Hsign [H1 H12].
  apply Rsqr_le_abs_0. unfold Rsqr.
  assert (Hk : 0 <= k * k) by nra.
  assert (Hd : 0 <= (m2 - m1) * (2 * (t0 * k) + (m1 + m2) * (k * k))).
  { apply Rmult_le_pos; [lra|].
    apply Rplus_le_le_0_compat; [lra|]. apply Rmult_le_pos; lra. }
  nra.
Qed.

Lemma counterweight_torque (m : R) :
  appended_torque [horizontal_arm] counterweight gravity_down [0] 0 0 m =
  981 / 100 * (1 - 2 * m).
Proof. unfold_geometry. rewrite cos_0, sin_0. field. Qed.

(** C8 as stated fails: hang a counterweight on the far side of the joint
    and the holding torque 9.81 (1 - 2 m) shrinks to 0 as its mass goes
    from 0 to 1/2. *)
Lemma counterweight_shrinks_torque :
  ~ (forall chain l g q qn j,
       length q = length chain -> (j < length chain)%nat ->
       magnitude_grows_with_mass chain l g q qn j).
Proof.
  intros H.
  specialize (H [horizontal_arm] counterweight gravity_down [0] 0 0%nat
                eq_refl (Nat.lt_0_succ 0) 0 (1 / 2)).
  rewrite !counterweight_torque in H.
  replace (981 / 100 * (1 - 2 * 0)) with (981 / 100) in H by field.
  replace (981 / 100 * (1 - 2 * (1 / 2))) with 0 in H by field.
  rewrite Rabs_R0, Rabs_pos_eq in H by lra.
  lra.
Qed.

(** C8, amended: with geometry and joint positions fixed, the torque on
    each upstream joint is an affine function of the appended link's mass,
    the torque without the link plus the mass times a constant; its
    magnitude is non-decreasing in the mass whenever that constant does
    not oppose the torque already there. *)
Theorem appended_mass_torque (chain : KinematicChain) (l : Link) (g : vec3)
    (q : list R) (qn : R) (j : nat)
    (Hlen : length q = length chain) (Hj : (j < length chain)%nat) :
  exists k,
    (forall m,
       appended_torque chain l g q qn j m = torque_at chain g q j + m * k) /\
    (0 <= torque_at chain g q j * k ->
     magnitude_grows_with_mass chain l g q qn j).
Proof.
  destruct (appended_torque_affine chain l g q qn j Hlen Hj) as [k Hk].
  exists k. split; [exact Hk|].
  intros Hsign m1 m2 Hm. rewrite !Hk.
  now apply affine_magnitude_monotone.
Qed.

Lemma appended_mass_torque_witness :
  exists k,
    (forall m,
       appended_torque [horizontal_arm] horizontal_arm gravity_down [0] 0 0 m =
       torque_at [horizontal_arm] gravity_down [0] 0 + m * k) /\
    (0 <= torque_at [horizontal_arm] gravity_down [0] 0 * k ->
     magnitude_grows_with_mass [horizontal_arm] horizontal_arm gravity_down [0] 0 0).
Proof.
  apply (appended_mass_torque [horizontal_arm] horizontal_arm gravity_down
           [0] 0 0%nat); [reflexivity | cbn; lia].
Defined.

End DynamicsFacts.

(** * Properties of the control loop *)

Module SchedulerFacts.

Import Dynamics Scheduler.
Local Open Scope Z_scope.

Section WithFloatClass.

Variable is_finite : R -> bool.

Lemma skipn_own_length {A} (old new : list A) :
  skipn (List.length old) (old ++ new) = new.
Proof. induction old as [|x old IH]; [reflexivity | exact IH]. Qed.

Lemma zero_command_all_zero (m : KinematicDynamicModel) :
  Forall (fun t => t = 0%R) (zero_command m) /\
  List.length (zero_command m) = List.length (chain m).
Proof.
  unfold zero_command. split; [|apply repeat_length].
  apply Forall_forall. intros t Ht. now apply repeat_spec in Ht.
Qed.

(** A tick on a stale sample: read, log, emit zeros. *)
Lemma tick_stale (now : Z) (s : Scheduler) :
  sched_state s = Running ->
  staleness_threshold s < now - stamp (buffer s) ->
  tick is_finite now s =
  fail_safe DegradedInput (record (ReadLatest (now - stamp (buffer s))) s).
Proof.
  intros Hrun Hstale. unfold tick, readLatest. rewrite Hrun.
  apply Z.ltb_lt in Hstale. now rewrite Hstale.
Qed.

(** C4: on a tick of the running scheduler whose sample is older than the
    staleness threshold, the one command emitted is the all-zero torque
    vector, whatever command was emitted before, and the solver is not
    invoked. *)
Theorem stale_tick_emits_zero (now : Z) (s : Scheduler)
  (Hrun : sched_state s = Running)
  (Hstale : staleness_threshold s < now - stamp (buffer s)) :
  tick_events is_finite now s =
    [ReadLatest (now - stamp (buffer s)); Log DegradedInput;
     Emit (zero_command (model s))] /\
  emitted (tick_events is_finite now s) = [zero_command (model s)] /\
  last_command (tick is_finite now s) = zero_command (model s) /\
  solver_calls (tick_events is_finite now s) = 0%nat /\
  Forall (fun t => t = 0%R) (zero_command (model s)) /\
  List.length (zero_command (model s)) = List.length (chain (model s)).
Proof.
  assert (Hev : tick_events is_finite now s =
    [ReadLatest (now - stamp (buffer s)); Log DegradedInput;
     Emit (zero_command (model s))]).
  { unfold tick_events. rewrite tick_stale by assumption.
    unfold fail_safe, emit, record. cbn [journal model].
    rewrite <- !app_assoc. apply skipn_own_length. }
  rewrite Hev. repeat split; try apply zero_command_all_zero.
  rewrite tick_stale by assumption. reflexivity.
Qed.

End WithFloatClass.

Lemma stale_tick_emits_zero_witness :
  emitted (tick_events (fun _ => true) 1000
             (demo_scheduler 0 [1%R] [0%R] [5%R] [Emit [5%R]])) = [[0%R]].
Proof.
  apply (stale_tick_emits_zero (fun _ => true) 1000
           (demo_scheduler 0 [1%R] [0%R] [5%R] [Emit [5%R]]));
    [reflexivity | cbn; lia].
Defined.

End SchedulerFacts.

(** * Further properties of the entry point *)

Module NodeMore.

Import Node NodeFacts.
Local Open Scope Z_scope.


(** X2: whatever the outcome, a run begins with [rclcpp::init] followed by
    the construction of the node, each exactly once: the node is built
    (and its logger available) on the failure path too, and nothing is
    initialised or constructed a second time. *)
Theorem init_then_construct_once (env : Env) (slot : bool) :
  exists rest,
    events env slot =
      EvInit :: EvConstruct true (flag_after (env_ctor env)) :: rest /\
    occurrences is_init rest = 0%nat /\
    occurrences is_construct rest = 0%nat.
Proof.
  unfold events. rewrite run_spec. cbv zeta.
  destruct (flag_after (env_ctor env)); [destruct (env_spin_returns env)|];
    cbn [snd trace success_prefix failure_trace app];
    eexists; (split; [reflexivity|split; reflexivity]).
Qed.

(** X3: the executor is touched on the success path only.  When [spin] is
    entered, [add_node], given the node just constructed, is the call
    just before it and [spin] is entered once; when it is not, the node
    is never handed to an executor. *)
Theorem node_added_just_before_spin (env : Env) (slot : bool) :
  if spun (events env slot) then
    (exists before after,
       events env slot =
         before ++ [EvAddNode (ctor_node (env_ctor env)); EvSpin] ++ after /\
       occurrences is_add_node before = 0%nat /\
       occurrences is_spin before = 0%nat /\
       occurrences is_add_node after = 0%nat /\
       occurrences is_spin after = 0%nat)
  else
    occurrences is_add_node (events env slot) = 0%nat.
Proof.
  unfold events. rewrite run_spec. cbv zeta.
  destruct (flag_after (env_ctor env)); [destruct (env_spin_returns env)|];
    cbn [snd trace success_prefix failure_trace app spun existsb is_spin orb].
  - exists [EvInit; EvConstruct true true], [EvShutdown]. repeat split.
  - exists [EvInit; EvConstruct true true], []. repeat split.
  - reflexivity.
Qed.

(** X5: the only thing [main] ever logs is the one fatal message, with
    its exact text, through the logger of the node just constructed, on
    the failure path; a successful run logs nothing from [main]. *)
Theorem main_logs_only_the_fatal_message (env : Env) (slot : bool) :
  filter is_log (events env slot) =
  if flag_after (env_ctor env) then []
  else [EvLog (ctor_node (env_ctor env)) Fatal
          "Failed to initialize the gravity compensation node. Exiting..."].
Proof.
  unfold events. rewrite run_spec. cbv zeta.
  destruct (flag_after (env_ctor env)); [destruct (env_spin_returns env)|];
    reflexivity.
Qed.

End NodeMore.
